(** * circuit-breaker-go: the data model of [types.go]

    A shallow embedding of the breaker's types: the [State] enumeration and
    its textual names, the [counts] tallies with their 32-bit wrap-around,
    the [settings] policy with its options and defaults, and the
    construction-time validation. *)

From Stdlib Require Import ZArith Ascii String List Lia Bool.
From Stdlib Require Import DecimalString DecimalPos DecimalZ.
Import ListNotations.

Local Open Scope string_scope.
Local Open Scope Z_scope.

(** ** Machine integers

    [uint32] fields are kept as [Z] with the wrap-around of Go's unsigned
    arithmetic written out. *)

Definition uint32_modulus : Z := 2 ^ 32.
Definition uint32_max : Z := uint32_modulus - 1.

Definition is_uint32 (x : Z) : Prop := 0 <= x < uint32_modulus.

(** [x++] on a [uint32]. *)
Definition uint32_incr (x : Z) : Z := (x + 1) mod uint32_modulus.

(** ** State

    [type State int] with the three [iota] constants. *)

Definition State : Type := Z.

Definition StateClosed : State := 0.
Definition StateHalfOpen : State := 1.
Definition StateOpen : State := 2.

(** [fmt.Sprintf("%d", s)]: the decimal rendering of an integer, with a
    leading minus sign for a negative one. *)
Definition sprintf_d (s : Z) : string := NilZero.string_of_int (Z.to_int s).

(** [func (s State) String() string] *)
Definition State_String (s : State) : string :=
  if s =? StateClosed then "closed"
  else if s =? StateHalfOpen then "half-open"
  else if s =? StateOpen then "open"
  else "unknown state: " ++ sprintf_d s.

(** ** counts *)

Record counts : Type := mkCounts {
  requests : Z;
  totalSuccesses : Z;
  totalFailures : Z;
  consecutiveSuccesses : Z;
  consecutiveFailures : Z
}.

(** The zero value of the struct. *)
Definition zeroCounts : counts := mkCounts 0 0 0 0 0.

(** Every field holds a value of its type. *)
Definition counts_wf (c : counts) : Prop :=
  is_uint32 (requests c) /\
  is_uint32 (totalSuccesses c) /\
  is_uint32 (totalFailures c) /\
  is_uint32 (consecutiveSuccesses c) /\
  is_uint32 (consecutiveFailures c).

(** The methods have a pointer receiver; the mutated struct is returned. *)

Definition onRequest (c : counts) : counts :=
  mkCounts (uint32_incr (requests c))
           (totalSuccesses c)
           (totalFailures c)
           (consecutiveSuccesses c)
           (consecutiveFailures c).

Definition onSuccess (c : counts) : counts :=
  mkCounts (requests c)
           (uint32_incr (totalSuccesses c))
           (totalFailures c)
           (uint32_incr (consecutiveSuccesses c))
           0.

Definition onFailure (c : counts) : counts :=
  mkCounts (requests c)
           (totalSuccesses c)
           (uint32_incr (totalFailures c))
           0
           (uint32_incr (consecutiveFailures c)).

Definition reset (c : counts) : counts := mkCounts 0 0 0 0 0.

(** ** settings *)

(** [time.Duration]: a signed count of nanoseconds. *)
Definition Duration : Type := Z.
Definition Nanosecond : Duration := 1.
Definition Second : Duration := 1000000000 * Nanosecond.

(** Go's [error] interface: [None] is [nil], [Some msg] an error value. *)
Definition error : Type := option string.

(** What an observer has been told: one entry per reported transition. *)
Definition transitionLog : Type := list (string * State * State).

(** [func(name string, from State, to State)], run for its effect only.
    In [settings] the observer may be [nil], which is [None]; the two
    predicates are kept as the functions they are set to. *)
Definition StateChangeFn : Type :=
  string -> State -> State -> transitionLog -> transitionLog.

Record settings : Type := mkSettings {
  maxHalfOpenRequests : Z;
  closedResetInterval : Duration;
  openTimeOut : Duration;
  readyToTrip : counts -> bool;
  onStateChange : option StateChangeFn;
  isSuccessful : error -> bool
}.

(** [SettingsOption] is a function over a pointer to [settings]: the
    pointed-to struct is passed in and the mutated struct is returned. *)
Definition SettingsOption : Type := settings -> settings.

Definition apply (o : SettingsOption) (s : settings) : settings := o s.

Definition WithMaxHalfOpenRequests (max : Z) : SettingsOption :=
  fun s => mkSettings max
                      (closedResetInterval s)
                      (openTimeOut s)
                      (readyToTrip s)
                      (onStateChange s)
                      (isSuccessful s).

Definition WithClosedResetInterval (interval : Duration) : SettingsOption :=
  fun s => mkSettings (maxHalfOpenRequests s)
                      interval
                      (openTimeOut s)
                      (readyToTrip s)
                      (onStateChange s)
                      (isSuccessful s).

Definition WithOpenTimeOut (timeout : Duration) : SettingsOption :=
  fun s => mkSettings (maxHalfOpenRequests s)
                      (closedResetInterval s)
                      timeout
                      (readyToTrip s)
                      (onStateChange s)
                      (isSuccessful s).

Definition WithReadyToTrip (fn : counts -> bool) : SettingsOption :=
  fun s => mkSettings (maxHalfOpenRequests s)
                      (closedResetInterval s)
                      (openTimeOut s)
                      fn
                      (onStateChange s)
                      (isSuccessful s).

(** A [nil] function value is [None]. *)
Definition WithOnStateChange (fn : option StateChangeFn) : SettingsOption :=
  fun s => mkSettings (maxHalfOpenRequests s)
                      (closedResetInterval s)
                      (openTimeOut s)
                      (readyToTrip s)
                      fn
                      (isSuccessful s).

Definition WithIsSuccessful (fn : error -> bool) : SettingsOption :=
  fun s => mkSettings (maxHalfOpenRequests s)
                      (closedResetInterval s)
                      (openTimeOut s)
                      (readyToTrip s)
                      (onStateChange s)
                      fn.

Definition defaultReadyToTrip (counts : counts) : bool :=
  consecutiveFailures counts >? 5.

Definition defaultIsSuccessful (err : error) : bool :=
  match err with
  | None => true
  | Some _ => false
  end.

Definition defaultSettings : settings := {|
  maxHalfOpenRequests := 10;
  closedResetInterval := 5 * Second;
  openTimeOut := 10 * Second;
  readyToTrip := defaultReadyToTrip;
  onStateChange := None;
  isSuccessful := defaultIsSuccessful
|}.

(** Modelled from the spec: the constructor, which is not in [types.go],
    builds the policy from the defaults with the supplied options applied
    in order. *)
Definition applyOptions (opts : list SettingsOption) (s : settings) : settings :=
  fold_left (fun acc o => apply o acc) opts s.

(** ** Validation

    [settings.validate] is a single call into ozzo-validation, an external
    dependency of the repository.  The three library functions the call
    uses are written out below after the library's documented contract:
    [Field] takes a pointer to a field of the validated struct,
    [ValidateStruct] answers with an internal error as soon as it meets a
    field that was not passed as a pointer, and a rule such as [Min] skips
    an empty (zero) value. *)

Module validation.

(** The [interface{}] handed to [Field]: a pointer to a field of the
    struct under validation, or any other value. *)
Inductive FieldArg (T : Type) : Type :=
| PtrToField (fieldName : string) (get : T -> Z)
| Value (v : Z).
Arguments PtrToField {T} fieldName get.
Arguments Value {T} v.

Inductive Rule : Type :=
| Min (threshold : Z).

Record FieldRules (T : Type) : Type := mkFieldRules {
  fieldPtr : FieldArg T;
  rules : list Rule
}.
Arguments mkFieldRules {T} fieldPtr rules.
Arguments fieldPtr {T} f.
Arguments rules {T} f.

Definition Field {T : Type} (fieldPtr : FieldArg T) (rules : list Rule)
  : FieldRules T :=
  mkFieldRules fieldPtr rules.

(** What [ValidateStruct] returns when it is not [nil]: the internal error
    "field #i must be specified as a pointer", or the validation errors
    found, by field name. *)
Inductive Error : Type :=
| ErrFieldPointer (i : nat)
| Errors (errs : list (string * string)).

(** One rule on one value; [None] when the value passes. *)
Definition Rule_Validate (r : Rule) (value : Z) : option string :=
  match r with
  | Min threshold =>
      if value =? 0 then None
      else if threshold <=? value then None
      else Some ("must be no less than " ++ sprintf_d threshold)
  end.

(** The rules of a field in order, stopping at the first that fails. *)
Fixpoint Validate (value : Z) (rs : list Rule) : option string :=
  match rs with
  | [] => None
  | r :: rest =>
      match Rule_Validate r value with
      | Some msg => Some msg
      | None => Validate value rest
      end
  end.

Fixpoint validateFields {T : Type} (s : T) (i : nat)
         (fields : list (FieldRules T)) (errs : list (string * string))
  : option Error :=
  match fields with
  | [] =>
      match errs with
      | [] => None
      | _ :: _ => Some (Errors errs)
      end
  | fr :: rest =>
      match fieldPtr fr with
      | Value _ => Some (ErrFieldPointer i)
      | PtrToField fieldName get =>
          match Validate (get s) (rules fr) with
          | None => validateFields s (S i) rest errs
          | Some msg =>
              validateFields s (S i) rest (errs ++ [(fieldName, msg)])%list
          end
      end
  end.

Definition ValidateStruct {T : Type} (structPtr : T)
           (fields : list (FieldRules T)) : option Error :=
  validateFields structPtr 0%nat fields [].

End validation.

(** [func (s settings) validate() error]: the struct goes in by pointer, the
    two durations by value. *)
Definition validate (s : settings) : option validation.Error :=
  validation.ValidateStruct s
    [ validation.Field (validation.Value (closedResetInterval s))
                       [validation.Min 1];
      validation.Field (validation.Value (openTimeOut s))
                       [validation.Min 1] ].

(** ** Sequences of counter operations *)

Inductive countsOp : Type :=
| OpRequest
| OpSuccess
| OpFailure
| OpReset.

Definition applyOp (c : counts) (o : countsOp) : counts :=
  match o with
  | OpRequest => onRequest c
  | OpSuccess => onSuccess c
  | OpFailure => onFailure c
  | OpReset => reset c
  end.

Definition runOps (ops : list countsOp) (c : counts) : counts :=
  fold_left applyOp ops c.

(** How many calls were admitted, and how many outcomes recorded, since the
    last reset of a sequence (or since its start). *)
Fixpoint admittedSinceReset (acc : Z) (ops : list countsOp) : Z :=
  match ops with
  | [] => acc
  | OpRequest :: rest => admittedSinceReset (acc + 1) rest
  | OpReset :: rest => admittedSinceReset 0 rest
  | _ :: rest => admittedSinceReset acc rest
  end.

Fixpoint recordedSinceReset (acc : Z) (ops : list countsOp) : Z :=
  match ops with
  | [] => acc
  | OpSuccess :: rest => recordedSinceReset (acc + 1) rest
  | OpFailure :: rest => recordedSinceReset (acc + 1) rest
  | OpReset :: rest => recordedSinceReset 0 rest
  | OpRequest :: rest => recordedSinceReset acc rest
  end.

(** ** The breaker and its gate

    [types.go] declares the data only; the aggregate that owns it and the
    two gate operations are described by the specification.  Wall-clock
    instants are nanoseconds on the same scale as [Duration].  Calls are
    linearized by the breaker's lock, so a burst of simultaneous callers is
    a sequence of atomic gate calls in some order. *)

(** Modelled from the spec: the Breaker aggregate (State, Counters, Policy
    and the expiry timestamp of the current Closed-reset or Open-timeout
    window), with the name and the observer's log that [onStateChange]
    is run on. *)
Record Breaker : Type := mkBreaker {
  name : string;
  policy : settings;
  state : State;
  tally : counts;
  expiry : Z;
  observed : transitionLog
}.

(** Modelled from the spec: a breaker is created Closed with zero counters,
    its first Closed-reset window ending [closedResetInterval] from now. *)
Definition newBreaker (nm : string) (p : settings) (now : Z) : Breaker :=
  mkBreaker nm p StateClosed zeroCounts (now + closedResetInterval p) [].

(** Modelled from the spec: the counters are replaced, nothing else. *)
Definition withTally (b : Breaker) (c : counts) : Breaker :=
  mkBreaker (name b) (policy b) (state b) c (expiry b) (observed b).

(** Modelled from the spec: a transition updates state, counters and expiry
    and then invokes [onStateChange(name, from, to)] exactly once, when an
    observer is set. *)
Definition setState (b : Breaker) (to : State) (c : counts) (e : Z) : Breaker :=
  mkBreaker (name b) (policy b) to c e
            (match onStateChange (policy b) with
             | Some fn => fn (name b) (state b) to (observed b)
             | None => observed b
             end).

(** Modelled from the spec: the probe budget is [maxHalfOpenRequests], with
    0 treated as exactly one. *)
Definition halfOpenBudget (p : settings) : Z :=
  if maxHalfOpenRequests p =? 0 then 1 else maxHalfOpenRequests p.

(** Modelled from the spec: the periodic reset of the Closed state,
    evaluated lazily at each gate call: once the wall clock has passed the
    expiry the counters are zeroed and the expiry is extended; the state
    remains Closed. *)
Definition closedTick (b : Breaker) (now : Z) : Breaker :=
  if (state b =? StateClosed) && (expiry b <? now)
  then mkBreaker (name b) (policy b) (state b) (reset (tally b))
                 (now + closedResetInterval (policy b)) (observed b)
  else b.

(** Modelled from the spec: HalfOpen admits only while the number of
    requests already admitted in this probe window is below the budget;
    an admitted call increments [requests]. *)
Definition admitHalfOpen (b : Breaker) : bool * Breaker :=
  if requests (tally b) <? halfOpenBudget (policy b)
  then (true, withTally b (onRequest (tally b)))
  else (false, b).

(** Modelled from the spec: Gate.Admit.  Closed always admits; Open rejects
    without touching the counters until the current time reaches the
    expiry, then moves to HalfOpen with the counters reset and falls
    through to the HalfOpen rule.  The boolean is [true] for an admitted
    call and [false] for the rejection signal. *)
Definition GateAdmit (b : Breaker) (now : Z) : bool * Breaker :=
  if state b =? StateClosed then
    let b' := closedTick b now in
    (true, withTally b' (onRequest (tally b')))
  else if state b =? StateOpen then
    if expiry b <=? now
    then admitHalfOpen (setState b StateHalfOpen (reset (tally b)) (expiry b))
    else (false, b)
  else if state b =? StateHalfOpen then admitHalfOpen b
  else (false, b).

(** Modelled from the spec: Gate.Record.  The outcome is classified by
    [isSuccessful].  A success is counted and, in HalfOpen with the probe
    budget fully consumed by successes, closes the breaker (counters reset,
    expiry now + closedResetInterval).  A failure is counted and, in
    HalfOpen, re-opens the breaker at once (counters reset, expiry
    now + openTimeOut); in Closed it opens the breaker when [readyToTrip]
    holds of the counters. *)
Definition GateRecord (b : Breaker) (err : error) (now : Z) : Breaker :=
  let b := closedTick b now in
  if isSuccessful (policy b) err then
    let c := onSuccess (tally b) in
    if (state b =? StateHalfOpen)
       && (halfOpenBudget (policy b) <=? consecutiveSuccesses c)
    then setState b StateClosed (reset c) (now + closedResetInterval (policy b))
    else withTally b c
  else
    let c := onFailure (tally b) in
    if state b =? StateHalfOpen
    then setState b StateOpen (reset c) (now + openTimeOut (policy b))
    else if (state b =? StateClosed) && readyToTrip (policy b) c
    then setState b StateOpen c (now + openTimeOut (policy b))
    else withTally b c.

(** Modelled from the spec: one atomic gate call of some caller, made at a
    wall-clock instant. *)
Inductive gateCall : Type :=
| CallAdmit (now : Z)
| CallRecord (err : error) (now : Z).

(** Modelled from the spec: the effect of one gate call, with the
    admission decision ([true] for Record, which decides nothing). *)
Definition gateStep (b : Breaker) (ev : gateCall) : bool * Breaker :=
  match ev with
  | CallAdmit now => GateAdmit b now
  | CallRecord err now => (true, GateRecord b err now)
  end.


(** Modelled from the spec: the number of calls admitted in the probe
    window the breaker is in after a step: the count restarts when HalfOpen
    is entered, grows by one with each call admitted while HalfOpen, and is
    0 outside HalfOpen. *)
Definition probeCount (b : Breaker) (w : Z) (ev : gateCall) : Z :=
  let (ok, b') := gateStep b ev in
  if state b' =? StateHalfOpen then
    (if state b =? StateHalfOpen then w else 0)
    + (match ev with
       | CallAdmit _ => if ok then 1 else 0
       | CallRecord _ _ => 0
       end)
  else 0.

(** Modelled from the spec: the probe-window count at the end of a
    linearized sequence of gate calls. *)
Fixpoint probeAdmits (b : Breaker) (w : Z) (evs : list gateCall) : Z :=
  match evs with
  | [] => w
  | ev :: rest => probeAdmits (snd (gateStep b ev)) (probeCount b w ev) rest
  end.

(** Modelled from the spec: admitted calls that each end in a failure, one
    per instant of [ts], admission and record at the same instant. *)
Definition failedCalls (e : string) (ts : list Z) : list gateCall :=
  flat_map (fun t => [CallAdmit t; CallRecord (Some e) t]) ts.

(** * Properties *)

(** ** 32-bit arithmetic *)

Lemma uint32_modulus_pos : 0 < uint32_modulus.
Proof. reflexivity. Qed.

Lemma uint32_incr_range (x : Z) : is_uint32 (uint32_incr x).
Proof.
  unfold is_uint32, uint32_incr.
  apply Z.mod_pos_bound, uint32_modulus_pos.
Qed.

Lemma uint32_incr_small (x : Z) :
  0 <= x < uint32_max -> uint32_incr x = x + 1.
Proof.
  unfold uint32_incr, uint32_max. intros Hx.
  apply Z.mod_small. lia.
Qed.

Lemma uint32_incr_max : uint32_incr uint32_max = 0.
Proof. reflexivity. Qed.

Lemma is_uint32_0 : is_uint32 0.
Proof. unfold is_uint32, uint32_modulus. lia. Qed.

Create HintDb uint32 discriminated.

#[local] Hint Resolve uint32_incr_range is_uint32_0 : uint32.

Lemma zeroCounts_wf : counts_wf zeroCounts.
Proof. unfold counts_wf; simpl; auto 10 with uint32. Qed.

Lemma onRequest_wf (c : counts) : counts_wf c -> counts_wf (onRequest c).
Proof. unfold counts_wf; simpl; intuition auto with uint32. Qed.

Lemma onSuccess_wf (c : counts) : counts_wf c -> counts_wf (onSuccess c).
Proof. unfold counts_wf; simpl; intuition auto with uint32. Qed.

Lemma onFailure_wf (c : counts) : counts_wf c -> counts_wf (onFailure c).
Proof. unfold counts_wf; simpl; intuition auto with uint32. Qed.

Lemma reset_wf (c : counts) : counts_wf (reset c).
Proof. exact zeroCounts_wf. Qed.

#[local] Hint Resolve zeroCounts_wf onRequest_wf onSuccess_wf onFailure_wf
  reset_wf : uint32.

(** ** State names *)

Lemma unknown_name_differs (s : Z) (nm : string) :
  String.get 0 nm <> Some "u"%char ->
  "unknown state: " ++ sprintf_d s <> nm.
Proof.
  intros Hnm Heq. apply Hnm. rewrite <- Heq. reflexivity.
Qed.

Lemma State_String_cases (s : State) :
  (s = StateClosed /\ State_String s = "closed") \/
  (s = StateHalfOpen /\ State_String s = "half-open") \/
  (s = StateOpen /\ State_String s = "open") \/
  (s <> StateClosed /\ s <> StateHalfOpen /\ s <> StateOpen /\
   State_String s = "unknown state: " ++ sprintf_d s).
Proof.
  unfold State_String.
  destruct (Z.eqb_spec s StateClosed); [now left|].
  destruct (Z.eqb_spec s StateHalfOpen); [now right; left|].
  destruct (Z.eqb_spec s StateOpen); [now right; right; left|].
  now right; right; right.
Qed.

(** C8: [State.String] names the three states "closed", "half-open" and
    "open", and no other value of [State] is given one of these names. *)
Theorem State_String_names :
  State_String StateClosed = "closed" /\
  State_String StateHalfOpen = "half-open" /\
  State_String StateOpen = "open" /\
  forall s : State,
    (State_String s = "closed" <-> s = StateClosed) /\
    (State_String s = "half-open" <-> s = StateHalfOpen) /\
    (State_String s = "open" <-> s = StateOpen).
Proof.
  do 3 (split; [reflexivity|]).
  intros s.
  destruct (State_String_cases s)
    as [[-> _]|[[-> _]|[[-> _]|(H0 & H1 & H2 & ->)]]];
    repeat split; intros H; try reflexivity; try discriminate H;
    try contradiction;
    exfalso; revert H; apply unknown_name_differs; discriminate.
Qed.

(** The text [sprintf_d] produces is a decimal numeral of the value: read
    back as a number it gives the value again. *)
Lemma sprintf_d_decimal (s : Z) :
  option_map Z.of_int (NilZero.int_of_string (sprintf_d s)) = Some s.
Proof.
  unfold sprintf_d.
  rewrite NilZero.isi.
  - simpl. now rewrite DecimalZ.of_to.
  - destruct s; simpl; try discriminate.
    intros H; injection H; apply Unsigned.to_uint_nonnil.
  - destruct s; simpl; try discriminate.
    intros H; injection H; apply Unsigned.to_uint_nonnil.
Qed.

(** C9: for a [State] value that is none of the three constants, [String]
    returns "unknown state: " followed by the decimal numeral of the
    value. *)
Theorem State_String_unknown (s : State) :
  s <> StateClosed -> s <> StateHalfOpen -> s <> StateOpen ->
  State_String s = "unknown state: " ++ sprintf_d s /\
  option_map Z.of_int (NilZero.int_of_string (sprintf_d s)) = Some s.
Proof.
  intros H0 H1 H2. split; [|apply sprintf_d_decimal].
  destruct (State_String_cases s)
    as [[E _]|[[E _]|[[E _]|(_ & _ & _ & E)]]];
    try contradiction; exact E.
Qed.

Lemma State_String_unknown_3 : State_String 3 = "unknown state: 3".
Proof.
  apply (State_String_unknown 3); discriminate.
Defined.

Example State_String_negative : State_String (-1) = "unknown state: -1".
Proof. reflexivity. Qed.

(** ** Counter updates *)

(** C4: recording a success increments [totalSuccesses] and
    [consecutiveSuccesses] by one (as 32-bit unsigned increments), zeroes
    [consecutiveFailures] and leaves [requests] and [totalFailures] alone;
    recording a failure is the mirror image. *)
Theorem onSuccess_onFailure_effect (c : counts) :
  (totalSuccesses (onSuccess c) = uint32_incr (totalSuccesses c) /\
   consecutiveSuccesses (onSuccess c) = uint32_incr (consecutiveSuccesses c) /\
   consecutiveFailures (onSuccess c) = 0 /\
   requests (onSuccess c) = requests c /\
   totalFailures (onSuccess c) = totalFailures c) /\
  (totalFailures (onFailure c) = uint32_incr (totalFailures c) /\
   consecutiveFailures (onFailure c) = uint32_incr (consecutiveFailures c) /\
   consecutiveSuccesses (onFailure c) = 0 /\
   requests (onFailure c) = requests c /\
   totalSuccesses (onFailure c) = totalSuccesses c) /\
  (forall x, 0 <= x < uint32_max -> uint32_incr x = x + 1).
Proof.
  repeat split; try reflexivity; apply uint32_incr_small; assumption.
Qed.

Lemma onSuccess_onFailure_effect_example :
  totalSuccesses (onSuccess (mkCounts 7 3 4 0 2)) = 4 /\
  consecutiveFailures (onFailure (mkCounts 7 3 4 2 0)) = 1.
Proof.
  destruct (onSuccess_onFailure_effect (mkCounts 7 3 4 0 2))
    as ((Hs & _) & _ & Hsmall).
  destruct (onSuccess_onFailure_effect (mkCounts 7 3 4 2 0))
    as (_ & (_ & Hf & _) & _).
  split.
  - rewrite Hs. apply (Hsmall 3). unfold uint32_max, uint32_modulus. lia.
  - rewrite Hf. apply (Hsmall 0). unfold uint32_max, uint32_modulus. lia.
Defined.

(** C10: the counters are 32-bit unsigned: every increment made by
    [onRequest], [onSuccess] and [onFailure] is taken modulo 2^32, keeps the
    field within the type, and takes a field that holds 2^32 - 1 to 0. *)
Theorem counts_increments_wrap (c : counts) :
  counts_wf c ->
  (counts_wf (onRequest c) /\ counts_wf (onSuccess c) /\
   counts_wf (onFailure c)) /\
  (requests (onRequest c) = (requests c + 1) mod 2 ^ 32 /\
   totalSuccesses (onSuccess c) = (totalSuccesses c + 1) mod 2 ^ 32 /\
   consecutiveSuccesses (onSuccess c)
     = (consecutiveSuccesses c + 1) mod 2 ^ 32 /\
   totalFailures (onFailure c) = (totalFailures c + 1) mod 2 ^ 32 /\
   consecutiveFailures (onFailure c)
     = (consecutiveFailures c + 1) mod 2 ^ 32) /\
  (requests c = 2 ^ 32 - 1 -> requests (onRequest c) = 0) /\
  (totalSuccesses c = 2 ^ 32 - 1 -> totalSuccesses (onSuccess c) = 0) /\
  (consecutiveSuccesses c = 2 ^ 32 - 1 ->
   consecutiveSuccesses (onSuccess c) = 0) /\
  (totalFailures c = 2 ^ 32 - 1 -> totalFailures (onFailure c) = 0) /\
  (consecutiveFailures c = 2 ^ 32 - 1 ->
   consecutiveFailures (onFailure c) = 0).
Proof.
  intros Hwf.
  split; [auto with uint32|].
  split; [repeat split|].
  repeat split; simpl; intros ->; reflexivity.
Qed.

Lemma counts_increments_wrap_at_max :
  requests (onRequest (mkCounts 4294967295 0 0 0 0)) = 0 /\
  totalSuccesses (onSuccess (mkCounts 0 4294967295 0 0 0)) = 0 /\
  consecutiveFailures (onFailure (mkCounts 0 0 0 0 4294967295)) = 0.
Proof.
  assert (Hwf : forall a b c d e,
             0 <= a < 2 ^ 32 -> 0 <= b < 2 ^ 32 -> 0 <= c < 2 ^ 32 ->
             0 <= d < 2 ^ 32 -> 0 <= e < 2 ^ 32 ->
             counts_wf (mkCounts a b c d e))
    by (intros; unfold counts_wf, is_uint32, uint32_modulus; simpl; tauto).
  split; [|split].
  - apply (counts_increments_wrap (mkCounts 4294967295 0 0 0 0));
      [apply Hwf; lia | reflexivity].
  - apply (counts_increments_wrap (mkCounts 0 4294967295 0 0 0));
      [apply Hwf; lia | reflexivity].
  - apply (counts_increments_wrap (mkCounts 0 0 0 0 4294967295));
      [apply Hwf; lia | reflexivity].
Defined.

(** ** Defaults and options *)

(** C5: with no option supplied the policy is [defaultSettings]: 10
    half-open requests, a 5 second closed reset interval, a 10 second open
    timeout, a trip predicate that holds exactly when
    [consecutiveFailures > 5], a success predicate that holds exactly of the
    [nil] error, and no state-change observer. *)
Theorem defaultSettings_values :
  let s := defaultSettings in
  applyOptions [] defaultSettings = s /\
  maxHalfOpenRequests s = 10 /\
  closedResetInterval s = 5 * Second /\
  closedResetInterval s = 5000000000 /\
  openTimeOut s = 10 * Second /\
  openTimeOut s = 10000000000 /\
  (forall c, readyToTrip s c = true <-> consecutiveFailures c > 5) /\
  (forall err, isSuccessful s err = true <-> err = None) /\
  onStateChange s = None.
Proof.
  simpl. repeat split; try reflexivity.
  - unfold defaultReadyToTrip. intros H. apply Z.gtb_lt in H. lia.
  - unfold defaultReadyToTrip. intros H. apply Z.gtb_lt. lia.
  - destruct err; simpl; [discriminate | reflexivity].
  - intros ->. reflexivity.
Qed.

(** The six fields of the policy. *)
Inductive settingsField : Type :=
| FMaxHalfOpenRequests
| FClosedResetInterval
| FOpenTimeOut
| FReadyToTrip
| FOnStateChange
| FIsSuccessful.

(** [s] and [t] hold the same value in every field other than [f]. *)
Definition agreeExcept (f : settingsField) (s t : settings) : Prop :=
  (f <> FMaxHalfOpenRequests -> maxHalfOpenRequests s = maxHalfOpenRequests t) /\
  (f <> FClosedResetInterval -> closedResetInterval s = closedResetInterval t) /\
  (f <> FOpenTimeOut -> openTimeOut s = openTimeOut t) /\
  (f <> FReadyToTrip -> readyToTrip s = readyToTrip t) /\
  (f <> FOnStateChange -> onStateChange s = onStateChange t) /\
  (f <> FIsSuccessful -> isSuccessful s = isSuccessful t).

(** An option that writes field [f] and nothing else, and whose second
    application changes nothing. *)
Definition writesOnly (f : settingsField) (o : SettingsOption) : Prop :=
  forall s, apply o (apply o s) = apply o s /\ agreeExcept f s (apply o s).

(** C7: each of the six option constructors, at every argument, is
    idempotent and leaves every policy field but its own as it was; its own
    field holds the argument afterwards. *)
Theorem options_idempotent_single_field :
  (forall max, writesOnly FMaxHalfOpenRequests (WithMaxHalfOpenRequests max) /\
     forall s, maxHalfOpenRequests (WithMaxHalfOpenRequests max s) = max) /\
  (forall d, writesOnly FClosedResetInterval (WithClosedResetInterval d) /\
     forall s, closedResetInterval (WithClosedResetInterval d s) = d) /\
  (forall d, writesOnly FOpenTimeOut (WithOpenTimeOut d) /\
     forall s, openTimeOut (WithOpenTimeOut d s) = d) /\
  (forall fn, writesOnly FReadyToTrip (WithReadyToTrip fn) /\
     forall s, readyToTrip (WithReadyToTrip fn s) = fn) /\
  (forall fn, writesOnly FOnStateChange (WithOnStateChange fn) /\
     forall s, onStateChange (WithOnStateChange fn s) = fn) /\
  (forall fn, writesOnly FIsSuccessful (WithIsSuccessful fn) /\
     forall s, isSuccessful (WithIsSuccessful fn s) = fn).
Proof.
  repeat split; try reflexivity; intros Hf; try reflexivity;
    exfalso; apply Hf; reflexivity.
Qed.

(** ** Validation *)

Lemma validate_internal_error (s : settings) :
  validate s = Some (validation.ErrFieldPointer 0).
Proof. reflexivity. Qed.

(** C2: [validate] hands the two durations to [validation.Field] by value,
    not by pointer, so [ValidateStruct] stops at the first field with the
    internal error "field #0 must be specified as a pointer", whatever the
    durations are: the default settings, both durations strictly positive,
    are refused like any other. *)
Theorem validate_refuses_positive_durations :
  0 < closedResetInterval defaultSettings /\
  0 < openTimeOut defaultSettings /\
  validate defaultSettings = Some (validation.ErrFieldPointer 0) /\
  forall s, validate s <> None.
Proof.
  repeat split. intros s. rewrite validate_internal_error. discriminate.
Qed.

(** ** The counters over a sequence of operations *)

Section CountsInvariant.

Let M : Z := uint32_modulus.

(** What holds of the counters along any run: the fields stay within
    their type, [requests] is the number [a] of admitted calls and
    [totalSuccesses + totalFailures] the number [r] of recorded outcomes,
    both modulo 2^32, and one of the two streaks is zero. *)
Definition tracks (c : counts) (a r : Z) : Prop :=
  counts_wf c /\
  requests c = a mod M /\
  (totalSuccesses c + totalFailures c) mod M = r mod M /\
  (consecutiveSuccesses c = 0 \/ consecutiveFailures c = 0).

Lemma M_nonzero : M <> 0.
Proof. discriminate. Qed.

Lemma incr_sum_l (x y r : Z) :
  (x + y) mod M = r mod M ->
  (uint32_incr x + y) mod M = (r + 1) mod M.
Proof.
  intros H. unfold uint32_incr. fold M.
  rewrite Z.add_mod_idemp_l by apply M_nonzero.
  replace (x + 1 + y) with ((x + y) + 1) by lia.
  rewrite <- Z.add_mod_idemp_l by apply M_nonzero.
  rewrite H.
  apply Z.add_mod_idemp_l, M_nonzero.
Qed.

Lemma incr_sum_r (x y r : Z) :
  (x + y) mod M = r mod M ->
  (x + uint32_incr y) mod M = (r + 1) mod M.
Proof.
  intros H. rewrite Z.add_comm. apply incr_sum_l.
  now rewrite Z.add_comm.
Qed.

Lemma tracks_onRequest c a r : tracks c a r -> tracks (onRequest c) (a + 1) r.
Proof.
  intros (Hwf & Hq & Hs & Hx).
  split; [auto with uint32|]. split; [|split; [exact Hs | exact Hx]].
  simpl. rewrite Hq. unfold uint32_incr. fold M.
  apply Z.add_mod_idemp_l, M_nonzero.
Qed.

Lemma tracks_onSuccess c a r : tracks c a r -> tracks (onSuccess c) a (r + 1).
Proof.
  intros (Hwf & Hq & Hs & Hx).
  split; [auto with uint32|]. split; [exact Hq|]. split; [|now right].
  simpl. now apply incr_sum_l.
Qed.

Lemma tracks_onFailure c a r : tracks c a r -> tracks (onFailure c) a (r + 1).
Proof.
  intros (Hwf & Hq & Hs & Hx).
  split; [auto with uint32|]. split; [exact Hq|]. split; [|now left].
  simpl. now apply incr_sum_r.
Qed.

Lemma tracks_reset c : tracks (reset c) 0 0.
Proof.
  split; [auto with uint32|]. split; [reflexivity|].
  split; [reflexivity | now left].
Qed.

Lemma tracks_runOps (ops : list countsOp) :
  forall c a r,
    tracks c a r ->
    tracks (runOps ops c) (admittedSinceReset a ops)
           (recordedSinceReset r ops).
Proof.
  induction ops as [|o ops IH]; intros c a r H; [exact H|].
  destruct o; simpl; apply IH.
  - now apply tracks_onRequest.
  - now apply tracks_onSuccess.
  - now apply tracks_onFailure.
  - apply tracks_reset.
Qed.

End CountsInvariant.

Lemma runOps_app (ops1 ops2 : list countsOp) (c : counts) :
  runOps (ops1 ++ ops2)%list c = runOps ops2 (runOps ops1 c).
Proof. unfold runOps. apply fold_left_app. Qed.

(** The equation of the first half of C3, as the claim has it. *)
Definition totalsMatchRequests (c : counts) : Prop :=
  totalSuccesses c + totalFailures c = requests c.

(** C3, as stated, fails: an admitted call whose outcome is not yet
    recorded leaves [requests] one ahead of the totals. *)
Lemma totals_lag_admitted_call :
  ~ (forall ops, totalsMatchRequests (runOps ops zeroCounts)).
Proof.
  intros H. specialize (H [OpRequest]). discriminate H.
Qed.

(** C3, amended: along every sequence of counter operations from the zero
    counters, at most one of the two streaks is nonzero, and both are zero
    right after a reset; [requests] is the number of calls admitted since
    the last reset and [totalSuccesses + totalFailures] the number of
    outcomes recorded since then, both modulo 2^32, so the two agree
    (modulo 2^32) whenever as many outcomes as admissions have been
    recorded since the last reset. *)
Theorem counts_invariant (ops : list countsOp) :
  let c := runOps ops zeroCounts in
  counts_wf c /\
  (consecutiveSuccesses c = 0 \/ consecutiveFailures c = 0) /\
  (forall ops', ops = (ops' ++ [OpReset])%list ->
     consecutiveSuccesses c = 0 /\ consecutiveFailures c = 0) /\
  requests c = admittedSinceReset 0 ops mod 2 ^ 32 /\
  (totalSuccesses c + totalFailures c) mod 2 ^ 32
    = recordedSinceReset 0 ops mod 2 ^ 32 /\
  (admittedSinceReset 0 ops = recordedSinceReset 0 ops ->
   (totalSuccesses c + totalFailures c) mod 2 ^ 32 = requests c).
Proof.
  intros c.
  destruct (tracks_runOps ops zeroCounts 0 0) as (Hwf & Hq & Hs & Hx).
  { apply (tracks_reset zeroCounts). }
  fold c in Hwf, Hq, Hs, Hx.
  split; [exact Hwf|]. split; [exact Hx|].
  split; [|split; [exact Hq|split; [exact Hs|]]].
  - intros ops' ->. subst c. rewrite runOps_app. split; reflexivity.
  - intros Heq. change (2 ^ 32) with uint32_modulus.
    rewrite Hs, Hq, Heq. reflexivity.
Qed.

Lemma counts_invariant_balanced_run :
  let c := runOps [OpRequest; OpFailure; OpRequest; OpSuccess] zeroCounts in
  (totalSuccesses c + totalFailures c) mod 2 ^ 32 = requests c /\
  (consecutiveSuccesses c = 0 \/ consecutiveFailures c = 0).
Proof.
  intros c.
  destruct (counts_invariant [OpRequest; OpFailure; OpRequest; OpSuccess])
    as (_ & Hx & _ & _ & _ & Hbal).
  split; [apply Hbal; reflexivity | exact Hx].
Defined.

(** ** The default trip condition *)




(** ** The gate in the Closed state *)








(** ** The probe budget *)

Lemma halfOpenBudget_range (p : settings) :
  is_uint32 (maxHalfOpenRequests p) ->
  1 <= halfOpenBudget p <= uint32_max.
Proof.
  unfold is_uint32, halfOpenBudget, uint32_max. intros H.
  destruct (Z.eqb_spec (maxHalfOpenRequests p) 0);
    unfold uint32_modulus in *; lia.
Qed.

(** What links the breaker to the number [w] of calls admitted in its
    current probe window: in HalfOpen [requests] is that number and is
    within the budget; outside HalfOpen no window is running. *)
Definition probeInv (p : settings) (b : Breaker) (w : Z) : Prop :=
  policy b = p /\
  if state b =? StateHalfOpen
  then w = requests (tally b) /\ 0 <= w <= halfOpenBudget p
  else w = 0.

Lemma closedTick_state (b : Breaker) (now : Z) :
  state (closedTick b now) = state b /\ policy (closedTick b now) = policy b.
Proof.
  unfold closedTick.
  destruct ((state b =? StateClosed) && (expiry b <? now)); auto.
Qed.

Lemma closedTick_not_closed (b : Breaker) (now : Z) :
  state b <> StateClosed -> closedTick b now = b.
Proof.
  intros H. unfold closedTick.
  destruct (Z.eqb_spec (state b) StateClosed); [contradiction | reflexivity].
Qed.

Lemma probeInv_admitHalfOpen (p : settings) (b : Breaker) (w : Z) :
  is_uint32 (maxHalfOpenRequests p) ->
  policy b = p ->
  state b = StateHalfOpen ->
  w = requests (tally b) ->
  0 <= w <= halfOpenBudget p ->
  let (ok, b') := admitHalfOpen b in
  state b' = StateHalfOpen /\
  probeInv p b' (w + if ok then 1 else 0).
Proof.
  intros Hmax Hp Hs Hw Hrange.
  pose proof (halfOpenBudget_range p Hmax) as Hb.
  unfold admitHalfOpen. rewrite Hp.
  destruct (Z.ltb_spec (requests (tally b)) (halfOpenBudget p)) as [Hlt|Hge].
  - split; [exact Hs|]. unfold probeInv. simpl. rewrite Hs. simpl.
    split; [exact Hp|].
    rewrite uint32_incr_small by lia. lia.
  - split; [exact Hs|]. unfold probeInv. rewrite Hs. simpl.
    split; [exact Hp|]. lia.
Qed.

Lemma probeInv_step (p : settings) (b : Breaker) (w : Z) (ev : gateCall) :
  is_uint32 (maxHalfOpenRequests p) ->
  probeInv p b w ->
  probeInv p (snd (gateStep b ev)) (probeCount b w ev).
Proof.
  intros Hmax (Hp & Hw).
  pose proof (halfOpenBudget_range p Hmax) as Hb.
  unfold probeCount.
  destruct ev as [now | err now]; simpl.
  - unfold GateAdmit.
    destruct (Z.eqb_spec (state b) StateClosed) as [Hc|Hnc].
    { destruct (closedTick_state b now) as (Hst & Hpt).
      unfold probeInv. simpl. rewrite Hst, Hc, Hpt. simpl. auto. }
    destruct (Z.eqb_spec (state b) StateOpen) as [Ho|Hno].
    { destruct (Z.leb_spec (expiry b) now).
      - pose proof (probeInv_admitHalfOpen p
                      (setState b StateHalfOpen (reset (tally b)) (expiry b)) 0
                      Hmax Hp eq_refl eq_refl) as Hadm.
        destruct (admitHalfOpen _) as [ok b'].
        destruct Hadm as (Hs' & Hinv); [lia|].
        simpl. rewrite Hs', Ho. simpl. exact Hinv.
      - simpl. rewrite Ho. simpl. unfold probeInv. rewrite Ho. simpl. auto. }
    destruct (Z.eqb_spec (state b) StateHalfOpen) as [Hh|Hnh].
    { destruct Hw as (Hw & Hrange).
      pose proof (probeInv_admitHalfOpen p b w Hmax Hp Hh Hw Hrange) as Hadm.
      destruct (admitHalfOpen b) as [ok b'].
      destruct Hadm as (Hs' & Hinv).
      simpl. rewrite Hs'. simpl. exact Hinv. }
    simpl. unfold probeInv.
    destruct (Z.eqb_spec (state b) StateHalfOpen); [contradiction|]. auto.
  - unfold GateRecord.
    destruct (Z.eqb_spec (state b) StateHalfOpen) as [Hh|Hnh].
    + rewrite closedTick_not_closed by (rewrite Hh; discriminate).
      rewrite Hh. simpl.
      destruct Hw as (Hw & Hrange).
      destruct (isSuccessful (policy b) err).
      * destruct (halfOpenBudget (policy b) <=? _); simpl.
        -- unfold probeInv. simpl. auto.
        -- unfold probeInv. simpl. rewrite Hh. simpl.
           split; [exact Hp | lia].
      * simpl. unfold probeInv. simpl. auto.
    + destruct (closedTick_state b now) as (Hst & Hpt).
      set (b1 := closedTick b now) in *.
      assert (Hnh1 : (state b1 =? StateHalfOpen) = false)
        by (rewrite Hst; now apply Z.eqb_neq).
      rewrite Hnh1. simpl.
      assert (Hout : forall b2, policy b2 = p ->
                                state b2 = state b \/ state b2 = StateOpen ->
                                probeInv p b2
                                  (if state b2 =? StateHalfOpen then 0 + 0 else 0)).
      { intros b2 Hp2 [H2|H2]; unfold probeInv; rewrite H2.
        - destruct (Z.eqb_spec (state b) StateHalfOpen); [contradiction|auto].
        - simpl. auto. }
      destruct (isSuccessful (policy b1) err).
      * apply Hout; simpl; [congruence | left; exact Hst].
      * destruct ((state b1 =? StateClosed) && readyToTrip (policy b1) _).
        -- apply Hout; simpl; [congruence | now right].
        -- apply Hout; simpl; [congruence | left; exact Hst].
Qed.

Lemma probeInv_bound (p : settings) (b : Breaker) (w : Z) :
  is_uint32 (maxHalfOpenRequests p) ->
  probeInv p b w ->
  0 <= w <= halfOpenBudget p.
Proof.
  intros Hmax (_ & Hw).
  pose proof (halfOpenBudget_range p Hmax).
  destruct (state b =? StateHalfOpen); lia.
Qed.

Lemma probeInv_run (p : settings) (evs : list gateCall) :
  is_uint32 (maxHalfOpenRequests p) ->
  forall b w,
    probeInv p b w ->
    0 <= probeAdmits b w evs <= halfOpenBudget p.
Proof.
  intros Hmax. induction evs as [|ev evs IH]; intros b w Hinv.
  - simpl. now apply (probeInv_bound p b).
  - simpl. apply IH. now apply probeInv_step.
Qed.

Lemma probeInv_newBreaker (nm : string) (p : settings) (t0 : Z) :
  probeInv p (newBreaker nm p t0) 0.
Proof. split; reflexivity. Qed.

(** The policy of the counterexample: the defaults with a probe budget
    of 0. *)
Definition zeroBudgetPolicy : settings :=
  apply (WithMaxHalfOpenRequests 0) defaultSettings.

(** C6, as stated, fails at [maxHalfOpenRequests = 0]: a budget of 0 is
    treated as exactly one, so the first Admit of a probe window is
    admitted, one call more than [maxHalfOpenRequests]. *)
Lemma zero_budget_admits_one_probe :
  ~ (forall (p : settings) (nm : string) (t0 : Z) (evs : list gateCall),
        is_uint32 (maxHalfOpenRequests p) ->
        probeAdmits (newBreaker nm p t0) 0 evs <= maxHalfOpenRequests p).
Proof.
  intros H.
  specialize (H zeroBudgetPolicy "svc" 0
                (failedCalls "boom" [0; 0; 0; 0; 0; 0]
                 ++ [CallAdmit (10 * Second)])%list).
  assert (Hmax : is_uint32 (maxHalfOpenRequests zeroBudgetPolicy))
    by (unfold is_uint32, uint32_modulus; simpl; lia).
  specialize (H Hmax). vm_compute in H. apply H. reflexivity.
Qed.

(** C6, amended: along every linearized sequence of Admit and Record calls,
    made by any number of callers at any instants, the number of calls
    admitted within one probe window never exceeds the probe budget, which
    is [maxHalfOpenRequests] with 0 treated as 1; it never exceeds
    [maxHalfOpenRequests] itself when that is not 0. *)
Theorem probe_window_within_budget
        (p : settings) (nm : string) (t0 : Z) (evs : list gateCall) :
  is_uint32 (maxHalfOpenRequests p) ->
  probeAdmits (newBreaker nm p t0) 0 evs <= halfOpenBudget p /\
  halfOpenBudget p = Z.max 1 (maxHalfOpenRequests p) /\
  (maxHalfOpenRequests p <> 0 ->
   probeAdmits (newBreaker nm p t0) 0 evs <= maxHalfOpenRequests p).
Proof.
  intros Hmax.
  pose proof (probeInv_run p evs Hmax _ _ (probeInv_newBreaker nm p t0)) as H.
  assert (Hb : halfOpenBudget p = Z.max 1 (maxHalfOpenRequests p)).
  { unfold halfOpenBudget, is_uint32 in *.
    destruct (Z.eqb_spec (maxHalfOpenRequests p) 0); lia. }
  split; [lia|]. split; [exact Hb|].
  intros Hnz. unfold is_uint32 in Hmax. lia.
Qed.

(** A burst at the default budget of 10: after the trip and the open
    timeout, fifteen callers ask for admission and ten are admitted. *)
Lemma probe_window_within_budget_burst :
  probeAdmits (newBreaker "svc" defaultSettings 0) 0
              (failedCalls "boom" [0; 0; 0; 0; 0; 0]
               ++ repeat (CallAdmit (10 * Second)) 15)%list = 10 /\
  probeAdmits (newBreaker "svc" defaultSettings 0) 0
              (failedCalls "boom" [0; 0; 0; 0; 0; 0]
               ++ repeat (CallAdmit (10 * Second)) 15)%list
  <= maxHalfOpenRequests defaultSettings.
Proof.
  split; [reflexivity|].
  apply (probe_window_within_budget defaultSettings "svc" 0).
  - unfold is_uint32, uint32_modulus. simpl. lia.
  - discriminate.
Defined.

(** * Further properties of [types.go] *)

(** ** [State.String] tells the states apart *)

Lemma sprintf_d_inj (s t : Z) : sprintf_d s = sprintf_d t -> s = t.
Proof.
  intros H.
  pose proof (sprintf_d_decimal s) as Hs.
  pose proof (sprintf_d_decimal t) as Ht.
  rewrite H in Hs. congruence.
Qed.

Lemma unknown_name_inj (s t : Z) :
  "unknown state: " ++ sprintf_d s = "unknown state: " ++ sprintf_d t ->
  s = t.
Proof.
  simpl. intros H. injection H as H. now apply sprintf_d_inj.
Qed.

(** X1: [State.String] is injective over all of [State]: two values with
    the same text are the same value, whether they are among the three
    constants or not. *)
Theorem State_String_injective (s t : State) :
  State_String s = State_String t -> s = t.
Proof.
  intros H.
  destruct (State_String_cases s)
    as [[Hs Es]|[[Hs Es]|[[Hs Es]|(Hs0 & Hs1 & Hs2 & Es)]]];
  destruct (State_String_cases t)
    as [[Ht Et]|[[Ht Et]|[[Ht Et]|(Ht0 & Ht1 & Ht2 & Et)]]];
    rewrite Es, Et in H;
    try congruence; try discriminate H;
    try (exfalso; revert H; apply unknown_name_differs; discriminate);
    try (exfalso; symmetry in H; revert H; apply unknown_name_differs;
         discriminate).
  now apply unknown_name_inj.
Qed.

Lemma State_String_injective_example : StateOpen = 2.
Proof.
  apply (State_String_injective StateOpen 2). reflexivity.
Defined.

(** ** How options compose *)

(** One assignment to a policy field, as the six constructors make it. *)
Inductive assignment : Type :=
| SetMaxHalfOpenRequests (max : Z)
| SetClosedResetInterval (interval : Duration)
| SetOpenTimeOut (timeout : Duration)
| SetReadyToTrip (fn : counts -> bool)
| SetOnStateChange (fn : option StateChangeFn)
| SetIsSuccessful (fn : error -> bool).

Definition optionOf (a : assignment) : SettingsOption :=
  match a with
  | SetMaxHalfOpenRequests max => WithMaxHalfOpenRequests max
  | SetClosedResetInterval interval => WithClosedResetInterval interval
  | SetOpenTimeOut timeout => WithOpenTimeOut timeout
  | SetReadyToTrip fn => WithReadyToTrip fn
  | SetOnStateChange fn => WithOnStateChange fn
  | SetIsSuccessful fn => WithIsSuccessful fn
  end.

Definition fieldOf (a : assignment) : settingsField :=
  match a with
  | SetMaxHalfOpenRequests _ => FMaxHalfOpenRequests
  | SetClosedResetInterval _ => FClosedResetInterval
  | SetOpenTimeOut _ => FOpenTimeOut
  | SetReadyToTrip _ => FReadyToTrip
  | SetOnStateChange _ => FOnStateChange
  | SetIsSuccessful _ => FIsSuccessful
  end.

(** X2: options made by different constructors commute, and of two options
    made by the same constructor the one applied last wins: the earlier one
    leaves no trace. *)
Theorem options_commute_or_override (a b : assignment) (s : settings) :
  (fieldOf a <> fieldOf b ->
   apply (optionOf a) (apply (optionOf b) s)
   = apply (optionOf b) (apply (optionOf a) s)) /\
  (fieldOf a = fieldOf b ->
   apply (optionOf a) (apply (optionOf b) s) = apply (optionOf a) s).
Proof.
  split; intros H; destruct a, b; try reflexivity;
    try discriminate H; exfalso; apply H; reflexivity.
Qed.

Lemma options_commute_or_override_example :
  apply (WithOpenTimeOut 7) (apply (WithMaxHalfOpenRequests 3) defaultSettings)
  = apply (WithMaxHalfOpenRequests 3) (apply (WithOpenTimeOut 7) defaultSettings)
  /\
  apply (WithOpenTimeOut 7) (apply (WithOpenTimeOut 9) defaultSettings)
  = apply (WithOpenTimeOut 7) defaultSettings.
Proof.
  split.
  - apply (options_commute_or_override
             (SetOpenTimeOut 7) (SetMaxHalfOpenRequests 3) defaultSettings).
    discriminate.
  - apply (options_commute_or_override
             (SetOpenTimeOut 7) (SetOpenTimeOut 9) defaultSettings).
    reflexivity.
Defined.

(** ** Admissions and outcomes *)

Definition isRequest (o : countsOp) : bool :=
  match o with
  | OpRequest => true
  | _ => false
  end.

(** A sequence of operations with its [onRequest] calls left out. *)
Definition outcomesOf (ops : list countsOp) : list countsOp :=
  filter (fun o => negb (isRequest o)) ops.

(** The number of [onRequest] calls after the last [reset] of a sequence,
    on top of [acc] calls made before it. *)
Fixpoint requestsSinceReset (acc : nat) (ops : list countsOp) : nat :=
  match ops with
  | [] => acc
  | OpRequest :: rest => requestsSinceReset (S acc) rest
  | OpReset :: rest => requestsSinceReset 0 rest
  | _ :: rest => requestsSinceReset acc rest
  end.

Lemma onRequest_onSuccess (c : counts) :
  onRequest (onSuccess c) = onSuccess (onRequest c).
Proof. reflexivity. Qed.

Lemma onRequest_onFailure (c : counts) :
  onRequest (onFailure c) = onFailure (onRequest c).
Proof. reflexivity. Qed.

Lemma iter_onRequest_onSuccess (n : nat) (c : counts) :
  onSuccess (Nat.iter n onRequest c) = Nat.iter n onRequest (onSuccess c).
Proof.
  induction n as [|n IH]; [reflexivity|].
  simpl. now rewrite <- onRequest_onSuccess, IH.
Qed.

Lemma iter_onRequest_onFailure (n : nat) (c : counts) :
  onFailure (Nat.iter n onRequest c) = Nat.iter n onRequest (onFailure c).
Proof.
  induction n as [|n IH]; [reflexivity|].
  simpl. now rewrite <- onRequest_onFailure, IH.
Qed.

Lemma runOps_requests_last (ops : list countsOp) :
  forall (acc : nat) (c : counts),
    runOps ops (Nat.iter acc onRequest c)
    = Nat.iter (requestsSinceReset acc ops) onRequest
               (runOps (outcomesOf ops) c).
Proof.
  induction ops as [|o ops IH]; intros acc c; [reflexivity|].
  destruct o; simpl.
  - apply (IH (S acc) c).
  - rewrite iter_onRequest_onSuccess. apply IH.
  - rewrite iter_onRequest_onFailure. apply IH.
  - apply (IH 0%nat (reset c)).
Qed.

(** X3: the counters do not depend on where the admissions fall among the
    outcomes: any sequence of operations ends in the counters of its
    outcomes and resets alone, followed by as many [onRequest] as the
    sequence has after its last reset.  The order of the outcomes themselves
    does matter: a success then a failure never gives the counters of the
    failure then the success. *)
Theorem admissions_commute_with_outcomes (ops : list countsOp) (c : counts) :
  runOps ops c
  = Nat.iter (requestsSinceReset 0 ops) onRequest (runOps (outcomesOf ops) c)
  /\ onSuccess (onFailure c) <> onFailure (onSuccess c).
Proof.
  split.
  - apply (runOps_requests_last ops 0%nat c).
  - intros H. apply (f_equal consecutiveSuccesses) in H. discriminate H.
Qed.

(** ** Resets *)

(** X4: a reset forgets everything: whatever the counters were and whatever
    was done before it, the counters after a sequence that contains a reset
    are those of the operations after the reset run from the zero counters,
    and they are within the range of their type. *)
Theorem reset_forgets_history (before after : list countsOp) (c : counts) :
  runOps (before ++ OpReset :: after)%list c = runOps after zeroCounts /\
  counts_wf (runOps (before ++ OpReset :: after)%list c).
Proof.
  assert (H : runOps (before ++ OpReset :: after)%list c
              = runOps after zeroCounts)
    by (rewrite runOps_app; reflexivity).
  split; [exact H|].
  rewrite H.
  apply (tracks_runOps after zeroCounts 0 0), (tracks_reset zeroCounts).
Qed.

(** ** Exact tallies below the wrap-around *)

(** The tallies are exact, the streaks are within their totals, and no
    field is beyond the bound [k]. *)
Definition exactTally (c : counts) (a r k : Z) : Prop :=
  requests c = a /\
  totalSuccesses c + totalFailures c = r /\
  0 <= consecutiveSuccesses c <= totalSuccesses c /\
  0 <= consecutiveFailures c <= totalFailures c /\
  0 <= a <= k /\ r <= k.

Lemma exactTally_step (c : counts) (a r k : Z) (o : countsOp) :
  exactTally c a r k ->
  k + 1 < 2 ^ 32 ->
  exactTally (applyOp c o)
             (admittedSinceReset a [o]) (recordedSinceReset r [o]) (k + 1).
Proof.
  intros (Hq & Hs & Hcs & Hcf & Ha & Hr) Hk.
  assert (Hincr : forall x, 0 <= x <= k -> uint32_incr x = x + 1)
    by (intros x Hx; apply uint32_incr_small;
        unfold uint32_max, uint32_modulus; lia).
  unfold exactTally.
  destruct o; simpl; rewrite ?Hincr by lia; lia.
Qed.

Lemma exactTally_runOps (ops : list countsOp) :
  forall (c : counts) (a r k : Z),
    exactTally c a r k ->
    k + Z.of_nat (length ops) < 2 ^ 32 ->
    exactTally (runOps ops c)
               (admittedSinceReset a ops) (recordedSinceReset r ops)
               (k + Z.of_nat (length ops)).
Proof.
  induction ops as [|o ops IH]; intros c a r k H Hk.
  - simpl. rewrite Z.add_0_r. exact H.
  - change (length (o :: ops)) with (S (length ops)) in *.
    rewrite Nat2Z.inj_succ in *.
    replace (k + Z.succ (Z.of_nat (length ops)))
      with ((k + 1) + Z.of_nat (length ops)) by lia.
    pose proof (exactTally_step c a r k o H ltac:(lia)) as Hstep.
    destruct o; simpl in *; apply IH; (exact Hstep || lia).
Qed.

(** X5: along a sequence of fewer than 2^32 operations from the zero
    counters nothing wraps: [requests] is exactly the number of calls
    admitted since the last reset, [totalSuccesses + totalFailures] exactly
    the number of outcomes recorded since then, and each streak is at most
    its total. *)
Theorem short_run_tallies_exact (ops : list countsOp) :
  Z.of_nat (length ops) < 2 ^ 32 ->
  let c := runOps ops zeroCounts in
  requests c = admittedSinceReset 0 ops /\
  totalSuccesses c + totalFailures c = recordedSinceReset 0 ops /\
  0 <= consecutiveSuccesses c <= totalSuccesses c /\
  0 <= consecutiveFailures c <= totalFailures c.
Proof.
  intros Hlen c.
  destruct (exactTally_runOps ops zeroCounts 0 0 0) as (Hq & Hs & Hcs & Hcf & _).
  - unfold exactTally. simpl. lia.
  - lia.
  - fold c in Hq, Hs, Hcs, Hcf. auto.
Qed.

Lemma short_run_tallies_exact_example :
  let c := runOps [OpRequest; OpSuccess; OpRequest; OpRequest; OpFailure]
                  zeroCounts in
  requests c = 3 /\
  totalSuccesses c + totalFailures c = 2 /\
  0 <= consecutiveSuccesses c <= totalSuccesses c /\
  0 <= consecutiveFailures c <= totalFailures c.
Proof.
  apply (short_run_tallies_exact
           [OpRequest; OpSuccess; OpRequest; OpRequest; OpFailure]).
  simpl. lia.
Defined.

(** ** Streaks *)

Definition isSuccess (o : countsOp) : bool :=
  match o with
  | OpSuccess => true
  | _ => false
  end.

Definition isFailure (o : countsOp) : bool :=
  match o with
  | OpFailure => true
  | _ => false
  end.

Fixpoint takeWhile {A : Type} (f : A -> bool) (l : list A) : list A :=
  match l with
  | [] => []
  | x :: rest => if f x then x :: takeWhile f rest else []
  end.

(** How many outcomes of the kind [f] end a sequence, admissions aside:
    the length of the run of [f] at the end of its outcomes and resets. *)
Definition trailing (f : countsOp -> bool) (ops : list countsOp) : nat :=
  length (takeWhile f (rev (outcomesOf ops))).

Lemma trailing_snoc (f : countsOp -> bool) (ops : list countsOp) (o : countsOp) :
  trailing f (ops ++ [o])%list =
  if isRequest o then trailing f ops
  else if f o then S (trailing f ops) else 0%nat.
Proof.
  unfold trailing, outcomesOf. rewrite filter_app. simpl.
  destruct (isRequest o); simpl.
  - now rewrite app_nil_r.
  - rewrite rev_app_distr. simpl. destruct (f o); reflexivity.
Qed.

Lemma uint32_incr_of_nat (n : nat) :
  uint32_incr (Z.of_nat n mod uint32_modulus)
  = Z.of_nat (S n) mod uint32_modulus.
Proof.
  unfold uint32_incr. rewrite Nat2Z.inj_succ. unfold Z.succ.
  apply Z.add_mod_idemp_l. discriminate.
Qed.

Lemma consecutiveFailures_runOps (ops : list countsOp) :
  consecutiveFailures (runOps ops zeroCounts)
  = Z.of_nat (trailing isFailure ops) mod uint32_modulus.
Proof.
  induction ops as [|o ops IH] using rev_ind; [reflexivity|].
  rewrite runOps_app, trailing_snoc.
  destruct o; simpl; try reflexivity; try exact IH.
  rewrite IH. apply uint32_incr_of_nat.
Qed.

(** X6: the two streak counters count what their names say: after any
    sequence of operations from the zero counters, [consecutiveFailures] is
    the number of failures recorded since the last success or reset, and
    [consecutiveSuccesses] the number of successes since the last failure
    or reset, each modulo 2^32; admissions in between do not break a
    streak. *)
Theorem streaks_count_trailing_outcomes (ops : list countsOp) :
  consecutiveSuccesses (runOps ops zeroCounts)
  = Z.of_nat (trailing isSuccess ops) mod 2 ^ 32 /\
  consecutiveFailures (runOps ops zeroCounts)
  = Z.of_nat (trailing isFailure ops) mod 2 ^ 32.
Proof.
  change (2 ^ 32) with uint32_modulus.
  induction ops as [|o ops [IHs IHf]] using rev_ind; [split; reflexivity|].
  rewrite runOps_app, !trailing_snoc.
  destruct o; simpl.
  - now split.
  - rewrite IHs, uint32_incr_of_nat. now split.
  - rewrite IHf, uint32_incr_of_nat. now split.
  - now split.
Qed.

(** X7: on the counters of any sequence of operations from the zero
    counters, the default trip condition holds exactly when the number of
    failures that end the sequence, taken modulo 2^32, is more than 5; for
    a sequence of fewer than 2^32 operations that is when more than 5
    failures in a row end it.  A success or a reset clears the condition. *)
Theorem defaultReadyToTrip_trailing_failures (ops : list countsOp) :
  defaultReadyToTrip (runOps ops zeroCounts)
  = (5 <? Z.of_nat (trailing isFailure ops) mod 2 ^ 32) /\
  (Z.of_nat (length ops) < 2 ^ 32 ->
   defaultReadyToTrip (runOps ops zeroCounts)
   = (5 <? Z.of_nat (trailing isFailure ops))) /\
  defaultReadyToTrip (runOps (ops ++ [OpSuccess])%list zeroCounts) = false /\
  defaultReadyToTrip (runOps (ops ++ [OpReset])%list zeroCounts) = false.
Proof.
  assert (Hgen : forall l, defaultReadyToTrip (runOps l zeroCounts)
                           = (5 <? Z.of_nat (trailing isFailure l) mod 2 ^ 32)).
  { intros l. unfold defaultReadyToTrip.
    rewrite consecutiveFailures_runOps. apply Z.gtb_ltb. }
  split; [apply Hgen|]. split; [|split].
  - intros Hlen. rewrite Hgen. rewrite Z.mod_small; [reflexivity|].
    assert (trailing isFailure ops <= length ops)%nat.
    { unfold trailing, outcomesOf.
      transitivity (length (rev (filter (fun o => negb (isRequest o)) ops))).
      - generalize (rev (filter (fun o => negb (isRequest o)) ops)).
        induction l as [|x l IH]; simpl; [lia|].
        destruct (isFailure x); simpl; lia.
      - rewrite length_rev. apply filter_length_le. }
    lia.
  - rewrite Hgen, trailing_snoc. reflexivity.
  - rewrite Hgen, trailing_snoc. reflexivity.
Qed.

Lemma defaultReadyToTrip_trailing_failures_example :
  defaultReadyToTrip
    (runOps [OpSuccess; OpFailure; OpRequest; OpFailure; OpFailure;
             OpRequest; OpFailure; OpFailure; OpFailure] zeroCounts)
  = true.
Proof.
  destruct (defaultReadyToTrip_trailing_failures
              [OpSuccess; OpFailure; OpRequest; OpFailure; OpFailure;
               OpRequest; OpFailure; OpFailure; OpFailure])
    as (_ & H & _).
  rewrite H; [reflexivity | simpl; lia].
Defined.

(** ** Repeated admissions *)

Lemma iter_onRequest_fields (n : nat) (c : counts) :
  Nat.iter n onRequest c
  = mkCounts (requests (Nat.iter n onRequest c))
             (totalSuccesses c) (totalFailures c)
             (consecutiveSuccesses c) (consecutiveFailures c).
Proof.
  induction n as [|n IH]; [now destruct c|].
  simpl. rewrite IH. reflexivity.
Qed.

(** X8: [n] admissions in a row add [n] to [requests] modulo 2^32 and
    leave the four outcome fields as they were; after exactly 2^32 of them
    [requests] is back at the value it started from. *)
Theorem onRequest_iterated (n : nat) (c : counts) :
  is_uint32 (requests c) ->
  Nat.iter n onRequest c
  = mkCounts ((requests c + Z.of_nat n) mod 2 ^ 32)
             (totalSuccesses c) (totalFailures c)
             (consecutiveSuccesses c) (consecutiveFailures c) /\
  (Z.of_nat n = 2 ^ 32 -> Nat.iter n onRequest c = c).
Proof.
  intros Hc.
  assert (Hq : requests (Nat.iter n onRequest c)
               = (requests c + Z.of_nat n) mod 2 ^ 32).
  { induction n as [|n IH].
    - simpl. rewrite Z.add_0_r. symmetry. apply Z.mod_small. exact Hc.
    - rewrite Nat2Z.inj_succ. simpl. rewrite IH. unfold uint32_incr, Z.succ.
      change uint32_modulus with (2 ^ 32).
      rewrite Z.add_mod_idemp_l by discriminate.
      now rewrite Z.add_assoc. }
  assert (Hall : Nat.iter n onRequest c
                 = mkCounts ((requests c + Z.of_nat n) mod 2 ^ 32)
                            (totalSuccesses c) (totalFailures c)
                            (consecutiveSuccesses c) (consecutiveFailures c))
    by (rewrite iter_onRequest_fields, Hq; reflexivity).
  split; [exact Hall|].
  intros Hn. rewrite Hall, Hn.
  replace ((requests c + 2 ^ 32) mod 2 ^ 32) with (requests c).
  - now destruct c.
  - rewrite <- (Z.mul_1_l (2 ^ 32)) at 1.
    rewrite Z.mod_add by discriminate.
    symmetry. apply Z.mod_small. exact Hc.
Qed.

Lemma onRequest_iterated_example :
  Nat.iter 3 onRequest (mkCounts 4294967294 1 2 0 2) = mkCounts 1 1 2 0 2.
Proof.
  apply (onRequest_iterated 3 (mkCounts 4294967294 1 2 0 2)).
  unfold is_uint32, uint32_modulus. simpl. lia.
Defined.
